(** * Emscripten asynchronous HTTP smart subtransport of libgit2-sys

    A shallow embedding of
    [libgit2-sys/emscripten-transport/emscriptenhttp-async.c].

    Memory is a heap of blocks indexed by [N] (the pointers of the C code);
    the host runtime (the JavaScript [Module.emscriptenhttp*] handlers reached
    through [EM_JS]/[EM_ASM]) is a record of functions that answer each call
    from the history of earlier host calls; every host call is appended to a
    trace.  Functions run in a state monad over the world whose [None]
    outcome is undefined behaviour (a pointer that does not name a live block
    of the right kind). *)

From Stdlib Require Import ZArith Ascii String.
From stdpp Require Import base gmap strings list.

Local Open Scope Z_scope.

Module Emhttp.

(** ** Constants of the file *)

Definition DEFAULT_BUFSIZE : Z := 65536.

Definition upload_pack_ls_service_url : string :=
  "/info/refs?service=git-upload-pack"%string.
Definition upload_pack_service_url : string := "/git-upload-pack"%string.
Definition receive_pack_ls_service_url : string :=
  "/info/refs?service=git-receive-pack"%string.
Definition receive_pack_service_url : string := "/git-receive-pack"%string.

(** [git_smart_service_t] (git2/sys/transport.h): a C enum, so an [int]. *)
Definition GIT_SERVICE_UPLOADPACK_LS : Z := 1.
Definition GIT_SERVICE_UPLOADPACK : Z := 2.
Definition GIT_SERVICE_RECEIVEPACK_LS : Z := 3.
Definition GIT_SERVICE_RECEIVEPACK : Z := 4.

(** ** 32-bit values crossing the wasm boundary *)

(** A JavaScript number returned as a wasm [i32] (ToInt32). *)
Definition wasm_i32 (z : Z) : Z :=
  let u := z mod 2 ^ 32 in if u <? 2 ^ 31 then u else u - 2 ^ 32.

(** The same 32 bits read as a [size_t] (wasm32). *)
Definition size_t_of (z : Z) : Z := z mod 2 ^ 32.

(** [(int)] conversion of a [size_t]. *)
Definition int_of_size_t (u : Z) : Z :=
  if u <? 2 ^ 31 then u else u - 2 ^ 32.

(** ** JavaScript string search *)

(** [s.indexOf(pat)]: position of the first occurrence, or -1. *)
Definition js_indexOf (s pat : string) : Z :=
  match String.index 0 pat s with
  | Some n => Z.of_nat n
  | None => -1
  end.

(** ** Host events and the host runtime *)

Inductive event :=
| EvConnectGet (url : string) (buf_size : Z)
| EvConnectPost (url : string) (buf_size : Z) (content_type : string)
| EvRead (connectionNo : Z) (buf_size : Z)
| EvWrite (connectionNo : Z) (len : Z).

(** Each handler sees the host calls made so far. *)
Record host := {
  emscriptenhttpconnect_get : list event -> string -> Z -> Z;
  emscriptenhttpconnect_post : list event -> string -> Z -> string -> Z;
  emscriptenhttpread : list event -> Z -> Z -> Z;
  emscriptenhttpwrite : list event -> Z -> Z -> Z
}.

(** ** Data model *)

(** A [const char *]: NULL, a static string, or a heap buffer. *)
Inductive cstr :=
| CNull
| CStatic (s : string)
| CHeap (l : N).

(** [emscriptenhttp_stream]; the [parent] vtable is fixed and left out,
    only its back pointer to the subtransport is kept. *)
Record emscriptenhttp_stream := {
  stream_subtransport : N;
  service_url : cstr;
  connectionNo : Z
}.

(** [emscriptenhttp_subtransport]: the vtable and the [owner] pointer. *)
Record emscriptenhttp_subtransport := {
  owner : Z
}.

Inductive block :=
| BStream (s : emscriptenhttp_stream)
| BSubtransport (t : emscriptenhttp_subtransport)
| BStr (contents : string).

Record world := {
  heap : gmap N block;
  next_loc : N;
  trace : list event;
  last_error : option (Z * string)
}.

(** ** The state monad with undefined behaviour *)

Definition M (A : Type) : Type := world -> option (A * world).

Global Instance M_ret : MRet M := fun A x w => Some (x, w).
Global Instance M_bind : MBind M := fun A B k m w =>
  match m w with
  | Some (x, w') => k x w'
  | None => None
  end.

Definition ub {A} : M A := fun _ => None.

Definition set_heap (h : gmap N block) (w : world) : world :=
  {| heap := h; next_loc := next_loc w; trace := trace w;
     last_error := last_error w |}.

Definition load_stream (p : N) : M emscriptenhttp_stream := fun w =>
  match heap w !! p with
  | Some (BStream s) => Some (s, w)
  | _ => None
  end.

Definition store_stream (p : N) (s : emscriptenhttp_stream) : M unit := fun w =>
  match heap w !! p with
  | Some (BStream _) => Some (tt, set_heap (<[p := BStream s]> (heap w)) w)
  | _ => None
  end.

Definition store_subtransport (p : N) (t : emscriptenhttp_subtransport)
  : M unit := fun w =>
  match heap w !! p with
  | Some (BSubtransport _) =>
      Some (tt, set_heap (<[p := BSubtransport t]> (heap w)) w)
  | _ => None
  end.

(** A host call: its answer is computed from the trace so far, then the call
    is recorded. *)
Definition host_call (e : event) (answer : list event -> Z) : M Z := fun w =>
  Some (answer (trace w),
        {| heap := heap w; next_loc := next_loc w; trace := trace w ++ [e];
           last_error := last_error w |}).

(** [git_error_set(klass, msg)]. *)
Definition git_error_set (klass : Z) (msg : string) : M unit := fun w =>
  Some (tt, {| heap := heap w; next_loc := next_loc w; trace := trace w;
               last_error := Some (klass, msg) |}).

(** Modelled from the spec: [git__calloc] and [git__free] (libgit2's
    allocator, not under src/).  Allocation failures abort through the
    host allocator (spec, section 7), so [git__calloc] always returns a
    fresh block; freeing a pointer that is not live is undefined. *)
Definition git__calloc (b : block) : M N := fun w =>
  let l := next_loc w in
  Some (l, {| heap := <[l := b]> (heap w); next_loc := (l + 1)%N;
              trace := trace w; last_error := last_error w |}).

Definition git__free (p : N) : M unit := fun w =>
  match heap w !! p with
  | Some _ => Some (tt, set_heap (delete p (heap w)) w)
  | None => None
  end.

(** Modelled from the spec: [git_str] (libgit2's growable buffer, not under
    src/).  [git_str_printf(&buf, "%s%s", a, b)] on a fresh buffer stores
    the concatenation of [a] and [b] in a heap buffer (spec, 4.1);
    [git_str_cstr] of a buffer never written is the static empty string
    [git_str__initstr]. *)
Inductive git_str :=
| GIT_STR_INIT
| GitStrHeap (l : N).

Definition git_str_printf2 (buf : git_str) (a b : string) : M git_str :=
  match buf with
  | GIT_STR_INIT => l ← git__calloc (BStr (a ++ b)); mret (GitStrHeap l)
  | GitStrHeap l => fun w =>
      match heap w !! l with
      | Some (BStr c) =>
          Some (GitStrHeap l, set_heap (<[l := BStr (c ++ a ++ b)]> (heap w)) w)
      | _ => None
      end
  end.

Definition git_str_cstr (buf : git_str) : cstr :=
  match buf with
  | GIT_STR_INIT => CStatic ""
  | GitStrHeap l => CHeap l
  end.

(** [UTF8ToString(ptr)]: the empty string for NULL; the text is modelled as
    its decoded characters. *)
Definition UTF8ToString (p : cstr) : M string := fun w =>
  match p with
  | CNull => Some (""%string, w)
  | CStatic s => Some (s, w)
  | CHeap l =>
      match heap w !! l with
      | Some (BStr s) => Some (s, w)
      | _ => None
      end
  end.

(** ** The host primitives of the file *)

Section Functions.

Variable H : host.

(** [emscriptenhttp_do_get] (EM_JS, returns [int]). *)
Definition emscriptenhttp_do_get (url : cstr) (buf_size : Z) : M Z :=
  urlString ← UTF8ToString url;
  r ← host_call (EvConnectGet urlString buf_size)
        (fun tr => emscriptenhttpconnect_get H tr urlString buf_size);
  mret (wasm_i32 r).

(** The content type chosen by [emscriptenhttp_do_post]. *)
Definition post_content_type (urlString : string) : string :=
  if 0 <? js_indexOf urlString "git-upload-pack"
  then "application/x-git-upload-pack-request"
  else "application/x-git-receive-pack-request".

(** [emscriptenhttp_do_post] (EM_JS, returns [int]). *)
Definition emscriptenhttp_do_post (url : cstr) (buf_size : Z) : M Z :=
  urlString ← UTF8ToString url;
  let ct := post_content_type urlString in
  r ← host_call (EvConnectPost urlString buf_size ct)
        (fun tr => emscriptenhttpconnect_post H tr urlString buf_size ct);
  mret (wasm_i32 r).

(** [emscriptenhttp_do_read] (EM_JS, returns [size_t]). *)
Definition emscriptenhttp_do_read (conn : Z) (buf_size : Z) : M Z :=
  r ← host_call (EvRead conn buf_size)
        (fun tr => emscriptenhttpread H tr conn buf_size);
  mret (size_t_of (wasm_i32 r)).

(** The [EM_ASM] block of [emscriptenhttp_stream_write_single]: its value is
    discarded. *)
Definition emscriptenhttpwrite_asm (conn : Z) (len : Z) : M unit :=
  _ ← host_call (EvWrite conn len)
        (fun tr => emscriptenhttpwrite H tr conn len);
  mret tt.

(** ** Stream operations *)

Definition emscriptenhttp_stream_free (stream : N) : M unit :=
  _ ← load_stream stream;
  git__free stream.

(** [emscriptenhttp_stream_read]: the [int] result and what is written to
    [*bytes_read] ([None]: nothing). *)
Definition emscriptenhttp_stream_read (stream : N) (buf_size : Z)
  : M (Z * option Z) :=
  s ← load_stream stream;
  _ ← (if decide (connectionNo s = -1) then
         c ← emscriptenhttp_do_get (service_url s) DEFAULT_BUFSIZE;
         store_stream stream
           {| stream_subtransport := stream_subtransport s;
              service_url := service_url s; connectionNo := c |}
       else mret tt);
  s ← load_stream stream;
  u ← emscriptenhttp_do_read (connectionNo s) buf_size;
  let read := int_of_size_t u in
  if decide (read < 0) then
    _ ← git_error_set 0 "request aborted by user";
    mret (-1, None)
  else mret (0, Some (size_t_of read)).

Definition emscriptenhttp_stream_write_single (stream : N) (len : Z) : M Z :=
  s ← load_stream stream;
  _ ← (if decide (connectionNo s = -1) then
         c ← emscriptenhttp_do_post (service_url s) DEFAULT_BUFSIZE;
         store_stream stream
           {| stream_subtransport := stream_subtransport s;
              service_url := service_url s; connectionNo := c |}
       else mret tt);
  s ← load_stream stream;
  _ ← emscriptenhttpwrite_asm (connectionNo s) len;
  mret 0.

End Functions.

(** ** Subtransport operations *)

(** [emscriptenhttp_stream_alloc(t, stream)]; [stream_nonnull] says whether
    the out pointer is non-NULL.  [git__calloc] zeroes the block. *)
Definition emscriptenhttp_stream_alloc (t : N) (stream_nonnull : bool)
  : M (Z * option N) :=
  if negb stream_nonnull then mret (-1, None) else
  s ← git__calloc (BStream {| stream_subtransport := 0%N;
                              service_url := CNull; connectionNo := 0 |});
  _ ← store_stream s {| stream_subtransport := t; service_url := CNull;
                        connectionNo := -1 |};
  mret (0, Some s).

Definition emscriptenhttp_action (subtransport : N) (url : string) (action : Z)
  : M (Z * option N) :=
  '(rc, so) ← emscriptenhttp_stream_alloc subtransport true;
  match so with
  | None => mret (-1, None)
  | Some s =>
    if decide (rc < 0) then mret (-1, None) else
    buf ← (if decide (action = GIT_SERVICE_UPLOADPACK_LS) then
             git_str_printf2 GIT_STR_INIT url upload_pack_ls_service_url
           else if decide (action = GIT_SERVICE_UPLOADPACK) then
             git_str_printf2 GIT_STR_INIT url upload_pack_service_url
           else if decide (action = GIT_SERVICE_RECEIVEPACK_LS) then
             git_str_printf2 GIT_STR_INIT url receive_pack_ls_service_url
           else if decide (action = GIT_SERVICE_RECEIVEPACK) then
             git_str_printf2 GIT_STR_INIT url receive_pack_service_url
           else mret GIT_STR_INIT);
    st ← load_stream s;
    _ ← store_stream s {| stream_subtransport := stream_subtransport st;
                          service_url := git_str_cstr buf;
                          connectionNo := connectionNo st |};
    mret (0, Some s)
  end.

Definition emscriptenhttp_close (subtransport : N) : M Z := mret 0.

Definition emscriptenhttp_free (subtransport : N) : M unit :=
  _ ← emscriptenhttp_close subtransport;
  git__free subtransport.

(** [git_smart_subtransport_http(out, owner, param)]. *)
Definition git_smart_subtransport_http (out_nonnull : bool) (owner_ptr : Z)
  : M (Z * option N) :=
  if negb out_nonnull then mret (-1, None) else
  t ← git__calloc (BSubtransport {| owner := 0 |});
  _ ← store_subtransport t {| owner := owner_ptr |};
  mret (0, Some t).

(** ** Observations *)

(** The text of a stream's [service_url]. *)
Definition stream_service_url (w : world) (p : N) : option string :=
  match heap w !! p with
  | Some (BStream s) =>
      match UTF8ToString (service_url s) w with
      | Some (u, _) => Some u
      | None => None
      end
  | _ => None
  end.

Definition is_open_event (e : event) : bool :=
  match e with
  | EvConnectGet _ _ | EvConnectPost _ _ _ => true
  | _ => false
  end.

Definition count_opens (tr : list event) : nat :=
  length (filter (fun e => is_open_event e = true) tr).

Definition empty_world : world :=
  {| heap := ∅; next_loc := 0%N; trace := []; last_error := None |}.

(** A sequence of calls made by the protocol driver on one stream. *)
Inductive stream_op :=
| OpRead (buf_size : Z)
| OpWrite (len : Z).

Fixpoint run_ops (H : host) (stream : N) (ops : list stream_op) : M unit :=
  match ops with
  | [] => mret tt
  | OpRead n :: ops' =>
      _ ← emscriptenhttp_stream_read H stream n; run_ops H stream ops'
  | OpWrite n :: ops' =>
      _ ← emscriptenhttp_stream_write_single H stream n; run_ops H stream ops'
  end.


(** ** Auxiliary definitions; hosts and worlds used as concrete inputs *)

Definition with_write (H : host) (f : list event -> Z -> Z -> Z) : host :=
  {| emscriptenhttpconnect_get := emscriptenhttpconnect_get H;
     emscriptenhttpconnect_post := emscriptenhttpconnect_post H;
     emscriptenhttpread := emscriptenhttpread H;
     emscriptenhttpwrite := f |}.

(** The value [emscriptenhttp_stream_read] compares with 0: the host's
    answer through the [size_t] return of [emscriptenhttp_do_read] and the
    [int read] it is stored in. *)
Definition read_as_int (n : Z) : Z := int_of_size_t (size_t_of (wasm_i32 n)).

(** A host whose read primitive reports an abort. *)
Definition aborting_host : host :=
  {| emscriptenhttpconnect_get := fun _ _ _ => 3;
     emscriptenhttpconnect_post := fun _ _ _ _ => 3;
     emscriptenhttpread := fun _ _ _ => -1;
     emscriptenhttpwrite := fun _ _ _ => 0 |}.

(** A world holding one stream, created by the listing action for fetch
    and not yet opened. *)
Definition fresh_stream_world : world :=
  {| heap := <[1%N := BStr "https://h/r/info/refs?service=git-upload-pack"]>
               {[0%N := BStream {| stream_subtransport := 0;
                                   service_url := CHeap 1;
                                   connectionNo := -1 |}]};
     next_loc := 2; trace := []; last_error := None |}.

Definition opened_stream_world : world :=
  {| heap := {[0%N := BStream {| stream_subtransport := 0;
                                  service_url := CStatic "https://h/r/git-upload-pack";
                                  connectionNo := 3 |}]};
     next_loc := 1; trace := [EvConnectGet "https://h/r/git-upload-pack" 65536];
     last_error := None |}.

(** A host whose read primitive answers more bytes than it was asked for. *)
Definition overreporting_host : host :=
  {| emscriptenhttpconnect_get := fun _ _ _ => 3;
     emscriptenhttpconnect_post := fun _ _ _ _ => 3;
     emscriptenhttpread := fun _ _ buf_size => buf_size + 4;
     emscriptenhttpwrite := fun _ _ _ => 0 |}.

(** A host whose read primitive answers five bytes. *)
Definition five_byte_host : host :=
  {| emscriptenhttpconnect_get := fun _ _ _ => 3;
     emscriptenhttpconnect_post := fun _ _ _ _ => 3;
     emscriptenhttpread := fun _ _ _ => 5;
     emscriptenhttpwrite := fun _ _ _ => 0 |}.

Definition with_conn (st : emscriptenhttp_stream) (c : Z) : emscriptenhttp_stream :=
  {| stream_subtransport := stream_subtransport st;
     service_url := service_url st; connectionNo := c |}.

(** An event of the connection with handle [c]: a read or a write on it. *)
Definition uses_handle (c : Z) (e : event) : Prop :=
  match e with
  | EvRead c' _ | EvWrite c' _ => c' = c
  | _ => False
  end.

(** A host whose GET primitive answers the sentinel -1. *)
Definition sentinel_host : host :=
  {| emscriptenhttpconnect_get := fun _ _ _ => -1;
     emscriptenhttpconnect_post := fun _ _ _ _ => 5;
     emscriptenhttpread := fun _ _ _ => 0;
     emscriptenhttpwrite := fun _ _ _ => 0 |}.


(** The host call a stream operation makes after opening: a read or a
    write on the handle [c]. *)
Definition call_event (op : stream_op) (c : Z) : event :=
  match op with
  | OpRead n => EvRead c n
  | OpWrite n => EvWrite c n
  end.

(** [e] opens a connection with the method of [op]: GET for a read, POST
    for a write. *)
Definition opens_with (op : stream_op) (e : event) : Prop :=
  match op, e with
  | OpRead _, EvConnectGet _ _ => True
  | OpWrite _, EvConnectPost _ _ _ => True
  | _, _ => False
  end.

(** The suffix the [switch] of [emscriptenhttp_action] prints after the base
    URL, if the action is one of its four cases. *)
Definition action_suffix (action : Z) : option string :=
  if decide (action = GIT_SERVICE_UPLOADPACK_LS) then Some upload_pack_ls_service_url
  else if decide (action = GIT_SERVICE_UPLOADPACK) then Some upload_pack_service_url
  else if decide (action = GIT_SERVICE_RECEIVEPACK_LS) then Some receive_pack_ls_service_url
  else if decide (action = GIT_SERVICE_RECEIVEPACK) then Some receive_pack_service_url
  else None.

End Emhttp.

(** * Proofs *)

Module EmhttpProofs.
Import Emhttp.

Ltac unfold_m :=
  unfold mbind, mret, M_bind, M_ret, ub, load_stream, store_stream,
    store_subtransport, host_call, git_error_set, git__calloc, git__free,
    set_heap, UTF8ToString in *.

Ltac map_simp :=
  repeat (first [ rewrite lookup_insert_eq
                | rewrite lookup_delete_eq
                | rewrite lookup_insert_ne by lia
                | rewrite lookup_delete_ne by lia ]; simpl).

Lemma next_loc_succ_ne (l : N) : (l + 1)%N <> l.
Proof. lia. Qed.

(** The result of [emscriptenhttp_action] for an action whose [switch] arm
    prints [sfx] after the base URL. *)
Lemma action_printed (t : N) (base sfx : string) (act : Z) (w : world) :
  (if decide (act = GIT_SERVICE_UPLOADPACK_LS) then
     git_str_printf2 GIT_STR_INIT base upload_pack_ls_service_url
   else if decide (act = GIT_SERVICE_UPLOADPACK) then
     git_str_printf2 GIT_STR_INIT base upload_pack_service_url
   else if decide (act = GIT_SERVICE_RECEIVEPACK_LS) then
     git_str_printf2 GIT_STR_INIT base receive_pack_ls_service_url
   else if decide (act = GIT_SERVICE_RECEIVEPACK) then
     git_str_printf2 GIT_STR_INIT base receive_pack_service_url
   else mret GIT_STR_INIT) = git_str_printf2 GIT_STR_INIT base sfx ->
  exists w',
    emscriptenhttp_action t base act w = Some ((0, Some (next_loc w)), w') /\
    stream_service_url w' (next_loc w) = Some (String.append base sfx).
Proof.
  intros Hsw. unfold emscriptenhttp_action. rewrite Hsw.
  unfold emscriptenhttp_stream_alloc, git_str_printf2, stream_service_url.
  unfold_m; simpl. map_simp.
  eexists; split; [reflexivity |]. simpl. map_simp. reflexivity.
Qed.

(** ** C1 *)

(** Claim C1: for every base URL, each of the four service actions succeeds
    and yields a stream whose service URL is the base URL followed by
    exactly its fixed suffix. *)
Theorem action_service_urls (t : N) (base : string) (w : world) :
  (exists w', emscriptenhttp_action t base GIT_SERVICE_UPLOADPACK_LS w
                = Some ((0, Some (next_loc w)), w') /\
     stream_service_url w' (next_loc w)
       = Some (String.append base "/info/refs?service=git-upload-pack")) /\
  (exists w', emscriptenhttp_action t base GIT_SERVICE_UPLOADPACK w
                = Some ((0, Some (next_loc w)), w') /\
     stream_service_url w' (next_loc w)
       = Some (String.append base "/git-upload-pack")) /\
  (exists w', emscriptenhttp_action t base GIT_SERVICE_RECEIVEPACK_LS w
                = Some ((0, Some (next_loc w)), w') /\
     stream_service_url w' (next_loc w)
       = Some (String.append base "/info/refs?service=git-receive-pack")) /\
  (exists w', emscriptenhttp_action t base GIT_SERVICE_RECEIVEPACK w
                = Some ((0, Some (next_loc w)), w') /\
     stream_service_url w' (next_loc w)
       = Some (String.append base "/git-receive-pack")).
Proof.
  repeat split; apply action_printed; reflexivity.
Qed.

(** ** C10 *)

(** Claim C10: an action value outside the four services still succeeds and
    yields a freshly allocated, unopened stream whose service URL is the
    empty string; nothing else of the world changes. *)
Theorem action_unknown_service (t : N) (base : string) (act : Z) (w : world) :
  act <> GIT_SERVICE_UPLOADPACK_LS -> act <> GIT_SERVICE_UPLOADPACK ->
  act <> GIT_SERVICE_RECEIVEPACK_LS -> act <> GIT_SERVICE_RECEIVEPACK ->
  let s := {| stream_subtransport := t; service_url := CStatic "";
              connectionNo := -1 |} in
  let w' := {| heap := <[next_loc w := BStream s]> (heap w);
               next_loc := (next_loc w + 1)%N; trace := trace w;
               last_error := last_error w |} in
  emscriptenhttp_action t base act w = Some ((0, Some (next_loc w)), w') /\
  stream_service_url w' (next_loc w) = Some ""%string.
Proof.
  intros H1 H2 H3 H4 s w'.
  unfold emscriptenhttp_action.
  rewrite !decide_False by assumption.
  unfold emscriptenhttp_stream_alloc, stream_service_url, w', s.
  unfold_m; simpl. map_simp.
  split; [| map_simp; reflexivity].
  rewrite !insert_insert_eq. reflexivity.
Qed.

Lemma action_unknown_service_witness :
  (0 <> GIT_SERVICE_UPLOADPACK_LS /\ 0 <> GIT_SERVICE_UPLOADPACK /\
   0 <> GIT_SERVICE_RECEIVEPACK_LS /\ 0 <> GIT_SERVICE_RECEIVEPACK) /\
  emscriptenhttp_action 0 "https://example.com/repo" 0 empty_world
    = Some ((0, Some 0%N),
            {| heap := {[0%N := BStream {| stream_subtransport := 0;
                                           service_url := CStatic "";
                                           connectionNo := -1 |}]};
               next_loc := 1; trace := []; last_error := None |}).
Proof.
  split; [unfold GIT_SERVICE_UPLOADPACK_LS, GIT_SERVICE_UPLOADPACK,
            GIT_SERVICE_RECEIVEPACK_LS, GIT_SERVICE_RECEIVEPACK; lia |].
  apply (action_unknown_service 0 "https://example.com/repo" 0 empty_world);
    unfold GIT_SERVICE_UPLOADPACK_LS, GIT_SERVICE_UPLOADPACK,
      GIT_SERVICE_RECEIVEPACK_LS, GIT_SERVICE_RECEIVEPACK; lia.
Defined.

(** ** C7 *)

(** Claim C7: [close] returns 0 and leaves the world unchanged; [free]
    calls [close] and then only releases the subtransport's block: no host
    call, no other block, error or allocation state is touched. *)
Theorem subtransport_close_free (t : N) (w : world) :
  emscriptenhttp_close t w = Some (0, w) /\
  emscriptenhttp_free t w = git__free t w /\
  (forall st : emscriptenhttp_subtransport,
     heap w !! t = Some (BSubtransport st) ->
     emscriptenhttp_free t w = Some (tt, set_heap (delete t (heap w)) w)).
Proof.
  split; [reflexivity |]. split; [reflexivity |].
  intros st Ht. unfold emscriptenhttp_free, emscriptenhttp_close.
  unfold_m. simpl. rewrite Ht. reflexivity.
Qed.

Lemma subtransport_close_free_witness :
  exists w t,
    git_smart_subtransport_http true 42 empty_world = Some ((0, Some t), w) /\
    heap w !! t = Some (BSubtransport {| owner := 42 |}) /\
    emscriptenhttp_free t w = Some (tt, set_heap (delete t (heap w)) w).
Proof.
  exists {| heap := {[0%N := BSubtransport {| owner := 42 |}]};
            next_loc := 1; trace := []; last_error := None |}, 0%N.
  split; [reflexivity |]. split; [reflexivity |].
  apply (proj2 (proj2 (subtransport_close_free 0
    {| heap := {[0%N := BSubtransport {| owner := 42 |}]};
       next_loc := 1; trace := []; last_error := None |}))
    {| owner := 42 |}).
  reflexivity.
Defined.

(** ** C8 *)

(** Claim C8: freeing a stream releases exactly the stream's block and makes
    no host call, whether or not its connection was opened ([connectionNo]
    is arbitrary); in particular no host event is recorded. *)
Theorem stream_free_releases (s : N) (st : emscriptenhttp_stream) (w : world) :
  heap w !! s = Some (BStream st) ->
  emscriptenhttp_stream_free s w = Some (tt, set_heap (delete s (heap w)) w) /\
  trace (set_heap (delete s (heap w)) w) = trace w.
Proof.
  intros Hs. unfold emscriptenhttp_stream_free. unfold_m. simpl.
  rewrite Hs. simpl. rewrite Hs. split; reflexivity.
Qed.

Lemma stream_free_releases_witness :
  emscriptenhttp_stream_free 0 opened_stream_world
    = Some (tt, set_heap ∅ opened_stream_world) /\
  trace (set_heap ∅ opened_stream_world) = trace opened_stream_world.
Proof.
  apply (stream_free_releases 0 {| stream_subtransport := 0;
     service_url := CStatic "https://h/r/git-upload-pack"; connectionNo := 3 |}
     opened_stream_world).
  reflexivity.
Defined.

(** ** Reading the monad backwards *)

Lemma bind_Some {A B} (m : M A) (k : A -> M B) (w : world) (r : B * world) :
  (m ≫= k) w = Some r -> exists x w1, m w = Some (x, w1) /\ k x w1 = Some r.
Proof.
  unfold mbind, M_bind. destruct (m w) as [[x w1]|]; [| discriminate].
  intros Hk. exists x, w1. split; [reflexivity | exact Hk].
Qed.

Ltac inv_bind Hyp Hm :=
  apply bind_Some in Hyp;
  let x := fresh "x" in let w1 := fresh "w" in
  destruct Hyp as (x & w1 & Hm & Hyp).

Ltac inv_bind_as Hyp x w1 Hm :=
  apply bind_Some in Hyp; destruct Hyp as (x & w1 & Hm & Hyp).

Lemma host_call_Some (e : event) (f : list event -> Z) (w w1 : world) (r : Z) :
  host_call e f w = Some (r, w1) ->
  r = f (trace w) /\ trace w1 = trace w ++ [e] /\ last_error w1 = last_error w /\
  heap w1 = heap w.
Proof. unfold host_call. intros Hc. inversion Hc. auto. Qed.

Lemma load_stream_Some (p : N) (st : emscriptenhttp_stream) (w w1 : world) :
  load_stream p w = Some (st, w1) -> w1 = w /\ heap w !! p = Some (BStream st).
Proof.
  unfold load_stream. destruct (heap w !! p) as [[] |]; try discriminate.
  intros Hc. inversion Hc. auto.
Qed.

Lemma store_stream_Some (p : N) (st : emscriptenhttp_stream) (w w1 : world)
    (x : unit) :
  store_stream p st w = Some (x, w1) ->
  w1 = set_heap (<[p := BStream st]> (heap w)) w.
Proof.
  unfold store_stream. destruct (heap w !! p) as [[] |]; try discriminate.
  intros Hc. inversion Hc. auto.
Qed.

Lemma UTF8ToString_Some (p : cstr) (u : string) (w w1 : world) :
  UTF8ToString p w = Some (u, w1) -> w1 = w.
Proof.
  unfold UTF8ToString. destruct p as [| str | l].
  - intros Hc. inversion Hc. auto.
  - intros Hc. inversion Hc. auto.
  - destruct (heap w !! l) as [[] |]; try discriminate.
    intros Hc. inversion Hc. auto.
Qed.

Lemma mret_Some {A} (a b : A) (w w1 : world) :
  (mret a : M A) w = Some (b, w1) -> b = a /\ w1 = w.
Proof. unfold mret, M_ret. intros Hc. inversion Hc. auto. Qed.

(** What one read call does, from the answer [n] of the host's read
    primitive for the connection handle [c] it was given. *)
Lemma stream_read_outcome (H : host) (s : N) (cap : Z) (w w' : world)
    (rc : Z) (out : option Z) :
  emscriptenhttp_stream_read H s cap w = Some ((rc, out), w') ->
  exists tr c,
    trace w' = tr ++ [EvRead c cap] /\
    let n := emscriptenhttpread H tr c cap in
    (read_as_int n < 0 ->
       rc = -1 /\ out = None /\
       last_error w' = Some (0, "request aborted by user"%string)) /\
    (0 <= read_as_int n ->
       rc = 0 /\ out = Some (size_t_of (read_as_int n))).
Proof.
  intros Hr. unfold emscriptenhttp_stream_read in Hr.
  inv_bind Hr Hload1. inv_bind Hr Hopen. inv_bind Hr Hload2.
  inv_bind Hr Hdo.
  unfold emscriptenhttp_do_read in Hdo. inv_bind Hdo Hhost.
  apply host_call_Some in Hhost as (-> & Htr & Herr & _).
  apply mret_Some in Hdo as [-> ->].
  exists (trace w2), (connectionNo x1).
  unfold read_as_int.
  cbv zeta in Hr. revert Hr.
  destruct (decide (int_of_size_t (size_t_of (wasm_i32
    (emscriptenhttpread H (trace w2) (connectionNo x1) cap))) < 0)) as [Hc | Hc];
    intros Hr.
  - inv_bind Hr Hset. unfold git_error_set in Hset. inversion Hset; subst.
    apply mret_Some in Hr as [Hb ->]. inversion Hb; subst.
    simpl. split; [exact Htr |]. split; [auto | lia].
  - apply mret_Some in Hr as [Hb ->]. inversion Hb; subst.
    split; [exact Htr |]. split; [lia | auto].
Qed.

Lemma size_t_of_wasm_i32 (n : Z) : size_t_of (wasm_i32 n) = n mod 2 ^ 32.
Proof.
  unfold size_t_of, wasm_i32.
  pose proof (Z.mod_pos_bound n (2 ^ 32) ltac:(lia)) as Hb.
  destruct (Z.ltb_spec (n mod 2 ^ 32) (2 ^ 31)).
  - apply Z.mod_small. lia.
  - symmetry. apply Z.mod_unique with (q := -1); lia.
Qed.

(** The boundary conversions amount to ToInt32 of the host's answer. *)
Lemma read_as_int_wasm_i32 (n : Z) : read_as_int n = wasm_i32 n.
Proof.
  unfold read_as_int. rewrite size_t_of_wasm_i32. reflexivity.
Qed.

(** On 32-bit answers the boundary conversions are the identity. *)
Lemma read_as_int_small (n : Z) :
  - 2 ^ 31 <= n < 2 ^ 31 -> read_as_int n = n.
Proof.
  intros Hn. rewrite read_as_int_wasm_i32. unfold wasm_i32.
  destruct (Z.le_gt_cases 0 n) as [Hp | Hm].
  - rewrite Z.mod_small by lia.
    destruct (Z.ltb_spec n (2 ^ 31)); lia.
  - assert (Hmod : n mod 2 ^ 32 = n + 2 ^ 32).
    { symmetry. apply Z.mod_unique with (q := -1); lia. }
    rewrite Hmod. destruct (Z.ltb_spec (n + 2 ^ 32) (2 ^ 31)); lia.
Qed.

(** Non-negative answers from 2^31 on wrap to a negative [int]. *)
Lemma read_as_int_wraps (n : Z) :
  2 ^ 31 <= n < 2 ^ 32 -> read_as_int n = n - 2 ^ 32.
Proof.
  intros Hn. rewrite read_as_int_wasm_i32. unfold wasm_i32.
  rewrite Z.mod_small by lia.
  destruct (Z.ltb_spec n (2 ^ 31)); lia.
Qed.

(** Every completed write returns 0. *)
Lemma write_single_returns_0 (H : host) (s : N) (len : Z) (w w' : world)
    (rc : Z) :
  emscriptenhttp_stream_write_single H s len w = Some (rc, w') -> rc = 0.
Proof.
  intros Hw. unfold emscriptenhttp_stream_write_single in Hw.
  inv_bind Hw Hload1. inv_bind Hw Hopen. inv_bind Hw Hload2.
  inv_bind Hw Hasm. apply mret_Some in Hw as [-> _]. reflexivity.
Qed.


(** ** C2 *)





(** ** C5 *)

(** Claim C5 as stated fails: the count written to [*bytes_read] is the
    host's answer, which the module does not bound by the capacity; with a
    capacity of 8 and a host answering 12 the read succeeds with 12. *)
Lemma read_count_exceeds_capacity :
  exists w',
    emscriptenhttp_stream_read overreporting_host 0 8 fresh_stream_world
      = Some ((0, Some 12), w') /\ 8 < 12.
Proof. eexists. split; [vm_compute; reflexivity | lia]. Qed.

(** Claim C5, amended: the capacity is passed to the host read primitive;
    when it answers [n] with 0 <= n < 2^31 the read succeeds and writes
    exactly [n] to [*bytes_read] (0 being a successful zero-byte read), with
    no clamping to the capacity; answers from 2^31 to 2^32 - 1 wrap to a
    negative [int] and are reported as the abort failure. *)
Theorem read_reports_host_count (H : host) (s : N) (cap : Z) (w w' : world)
    (rc : Z) (out : option Z) :
  emscriptenhttp_stream_read H s cap w = Some ((rc, out), w') ->
  exists tr c,
    trace w' = tr ++ [EvRead c cap] /\
    let n := emscriptenhttpread H tr c cap in
    (0 <= n < 2 ^ 31 -> rc = 0 /\ out = Some n) /\
    (2 ^ 31 <= n < 2 ^ 32 ->
       rc = -1 /\ out = None /\
       last_error w' = Some (0, "request aborted by user"%string)).
Proof.
  intros Hr. destruct (stream_read_outcome H s cap w w' rc out Hr)
    as (tr & c & Htr & Hneg & Hpos).
  exists tr, c. split; [exact Htr |]. cbv zeta in *. split.
  - intros Hn. rewrite read_as_int_small in Hpos by lia.
    destruct (Hpos ltac:(lia)) as [-> ->]. split; [reflexivity |].
    unfold size_t_of. rewrite Z.mod_small by lia. reflexivity.
  - intros Hn. rewrite read_as_int_wraps in Hneg by lia. apply Hneg. lia.
Qed.

Lemma read_reports_host_count_witness :
  exists rc out w',
    emscriptenhttp_stream_read five_byte_host 0 8 fresh_stream_world
      = Some ((rc, out), w') /\ rc = 0 /\ out = Some 5.
Proof.
  eexists _, _, _. split; [vm_compute; reflexivity |].
  destruct (read_reports_host_count five_byte_host 0 8 fresh_stream_world _ _ _
              ltac:(vm_compute; reflexivity))
    as (tr & c & _ & Hsmall & _).
  apply Hsmall. simpl. lia.
Defined.

(** ** C6 *)

(** Claim C6: every completed write returns 0, whatever the host write
    primitive answers: replacing that primitive by any other function
    changes neither the status nor the resulting world; and a write on a
    live stream whose service URL is readable always completes. *)
Theorem write_fire_and_forget (H : host) (f : list event -> Z -> Z -> Z)
    (s : N) (len : Z) (w : world) :
  emscriptenhttp_stream_write_single H s len w
    = emscriptenhttp_stream_write_single (with_write H f) s len w /\
  (forall rc w', emscriptenhttp_stream_write_single H s len w = Some (rc, w') ->
     rc = 0) /\
  (forall u, stream_service_url w s = Some u ->
     exists w', emscriptenhttp_stream_write_single H s len w = Some (0, w')).
Proof.
  split; [reflexivity |]. split; [intros rc w'; apply write_single_returns_0 |].
  intros u Hu. unfold stream_service_url in Hu.
  destruct (heap w !! s) as [[st | |] |] eqn:Hs; try discriminate.
  unfold emscriptenhttp_stream_write_single, emscriptenhttp_do_post,
    emscriptenhttpwrite_asm.
  unfold_m. rewrite Hs. simpl.
  destruct (decide (connectionNo st = -1)).
  - destruct (service_url st) as [| str | l]; simpl; rewrite ?Hs; simpl.
    + map_simp. eexists; reflexivity.
    + map_simp. eexists; reflexivity.
    + destruct (heap w !! l) as [[] |]; try discriminate. simpl.
      rewrite Hs. simpl. map_simp. eexists; reflexivity.
  - simpl. rewrite Hs. eexists; reflexivity.
Qed.

(** ** One call on a stream *)

Lemma read_tail (u : Z) (w w' : world) (r : Z * option Z) :
  (let read := int_of_size_t u in
   if decide (read < 0) then
     _ ← git_error_set 0 "request aborted by user"; mret (-1, None)
   else mret (0, Some (size_t_of read))) w = Some (r, w') ->
  heap w' = heap w /\ trace w' = trace w.
Proof.
  cbv zeta. destruct (decide _); intros Hr.
  - inv_bind Hr Hset. unfold git_error_set in Hset. inversion Hset; subst.
    apply mret_Some in Hr as [_ ->]. auto.
  - apply mret_Some in Hr as [_ ->]. auto.
Qed.

Lemma with_conn_same (st : emscriptenhttp_stream) :
  with_conn st (connectionNo st) = st.
Proof. destruct st. reflexivity. Qed.

(** A read call: it opens with GET when the handle is the sentinel -1, then
    reads from the (possibly new) handle; the stream's block only gets the
    handle. *)
Lemma read_step (H : host) (s : N) (n : Z) (w w' : world)
    (st : emscriptenhttp_stream) (r : Z * option Z) :
  heap w !! s = Some (BStream st) ->
  emscriptenhttp_stream_read H s n w = Some (r, w') ->
  exists opened c,
    heap w' = <[s := BStream (with_conn st c)]> (heap w) /\
    trace w' = trace w ++ opened ++ [EvRead c n] /\
    (connectionNo st <> -1 -> opened = [] /\ c = connectionNo st) /\
    (connectionNo st = -1 ->
       exists u, UTF8ToString (service_url st) w = Some (u, w) /\
         opened = [EvConnectGet u DEFAULT_BUFSIZE] /\
         c = wasm_i32 (emscriptenhttpconnect_get H (trace w) u DEFAULT_BUFSIZE)).
Proof.
  intros Hs Hr. unfold emscriptenhttp_stream_read in Hr.
  inv_bind_as Hr st1 w1 Hload1. apply load_stream_Some in Hload1 as [-> Hs'].
  rewrite Hs in Hs'. inversion Hs'; subst st1. clear Hs'.
  inv_bind_as Hr tt1 w2 Hopen. revert Hopen.
  destruct (decide (connectionNo st = -1)) as [Hc | Hc]; intros Hopen.
  - inv_bind_as Hopen c w3 Hget. unfold emscriptenhttp_do_get in Hget.
    inv_bind_as Hget u w4 Hutf.
    pose proof Hutf as Hutf'. apply UTF8ToString_Some in Hutf as ->.
    inv_bind_as Hget r0 w5 Hhost.
    apply host_call_Some in Hhost as (-> & Htr1 & _ & Hh1).
    apply mret_Some in Hget as [-> ->]. apply store_stream_Some in Hopen as ->.
    inv_bind_as Hr st2 w6 Hload2. apply load_stream_Some in Hload2 as [-> Hs2].
    simpl in Hs2. rewrite lookup_insert_eq in Hs2. inversion Hs2; subst st2.
    clear Hs2.
    inv_bind_as Hr v w7 Hdo. unfold emscriptenhttp_do_read in Hdo.
    inv_bind_as Hdo r1 w8 Hhost2.
    apply host_call_Some in Hhost2 as (_ & Htr2 & _ & Hh2).
    apply mret_Some in Hdo as [-> ->].
    apply read_tail in Hr as [Hh3 Htr3].
    exists [EvConnectGet u DEFAULT_BUFSIZE],
      (wasm_i32 (emscriptenhttpconnect_get H (trace w) u DEFAULT_BUFSIZE)).
    split; [| split; [| split]].
    + rewrite Hh3, Hh2. simpl. rewrite Hh1. reflexivity.
    + rewrite Htr3, Htr2. simpl. rewrite Htr1, <- app_assoc. reflexivity.
    + intros Hne. contradiction.
    + intros _. eexists; split; [exact Hutf' | split; reflexivity].
  - apply mret_Some in Hopen as [-> ->].
    inv_bind_as Hr st2 w6 Hload2. apply load_stream_Some in Hload2 as [-> Hs2].
    rewrite Hs in Hs2. inversion Hs2; subst st2. clear Hs2.
    inv_bind_as Hr v w7 Hdo. unfold emscriptenhttp_do_read in Hdo.
    inv_bind_as Hdo r1 w8 Hhost2.
    apply host_call_Some in Hhost2 as (_ & Htr2 & _ & Hh2).
    apply mret_Some in Hdo as [-> ->].
    apply read_tail in Hr as [Hh3 Htr3].
    exists [], (connectionNo st).
    split; [| split; [| split]].
    + rewrite Hh3, Hh2, with_conn_same, insert_id by exact Hs. reflexivity.
    + rewrite Htr3, Htr2. reflexivity.
    + auto.
    + intros He. contradiction.
Qed.

(** A write call: it opens with POST when the handle is the sentinel -1,
    the content type being chosen from the service URL, then writes on the
    (possibly new) handle. *)
Lemma write_step (H : host) (s : N) (n : Z) (w w' : world)
    (st : emscriptenhttp_stream) (r : Z) :
  heap w !! s = Some (BStream st) ->
  emscriptenhttp_stream_write_single H s n w = Some (r, w') ->
  exists opened c,
    heap w' = <[s := BStream (with_conn st c)]> (heap w) /\
    trace w' = trace w ++ opened ++ [EvWrite c n] /\
    (connectionNo st <> -1 -> opened = [] /\ c = connectionNo st) /\
    (connectionNo st = -1 ->
       exists u, UTF8ToString (service_url st) w = Some (u, w) /\
         opened = [EvConnectPost u DEFAULT_BUFSIZE (post_content_type u)] /\
         c = wasm_i32 (emscriptenhttpconnect_post H (trace w) u DEFAULT_BUFSIZE
                         (post_content_type u))).
Proof.
  intros Hs Hr. unfold emscriptenhttp_stream_write_single in Hr.
  inv_bind_as Hr st1 w1 Hload1. apply load_stream_Some in Hload1 as [-> Hs'].
  rewrite Hs in Hs'. inversion Hs'; subst st1. clear Hs'.
  inv_bind_as Hr tt1 w2 Hopen. revert Hopen.
  destruct (decide (connectionNo st = -1)) as [Hc | Hc]; intros Hopen.
  - inv_bind_as Hopen c w3 Hpost. unfold emscriptenhttp_do_post in Hpost.
    inv_bind_as Hpost u w4 Hutf.
    pose proof Hutf as Hutf'. apply UTF8ToString_Some in Hutf as ->.
    inv_bind_as Hpost r0 w5 Hhost.
    apply host_call_Some in Hhost as (-> & Htr1 & _ & Hh1).
    apply mret_Some in Hpost as [-> ->]. apply store_stream_Some in Hopen as ->.
    inv_bind_as Hr st2 w6 Hload2. apply load_stream_Some in Hload2 as [-> Hs2].
    simpl in Hs2. rewrite lookup_insert_eq in Hs2. inversion Hs2; subst st2.
    clear Hs2.
    inv_bind_as Hr v w7 Hasm. unfold emscriptenhttpwrite_asm in Hasm.
    inv_bind_as Hasm r1 w8 Hhost2.
    apply host_call_Some in Hhost2 as (_ & Htr2 & _ & Hh2).
    apply mret_Some in Hasm as [-> ->].
    apply mret_Some in Hr as [-> ->].
    exists [EvConnectPost u DEFAULT_BUFSIZE (post_content_type u)],
      (wasm_i32 (emscriptenhttpconnect_post H (trace w) u DEFAULT_BUFSIZE
                   (post_content_type u))).
    split; [| split; [| split]].
    + rewrite Hh2. simpl. rewrite Hh1. reflexivity.
    + rewrite Htr2. simpl. rewrite Htr1, <- app_assoc. reflexivity.
    + intros Hne. contradiction.
    + intros _. eexists; split; [exact Hutf' | split; reflexivity].
  - apply mret_Some in Hopen as [-> ->].
    inv_bind_as Hr st2 w6 Hload2. apply load_stream_Some in Hload2 as [-> Hs2].
    rewrite Hs in Hs2. inversion Hs2; subst st2. clear Hs2.
    inv_bind_as Hr v w7 Hasm. unfold emscriptenhttpwrite_asm in Hasm.
    inv_bind_as Hasm r1 w8 Hhost2.
    apply host_call_Some in Hhost2 as (_ & Htr2 & _ & Hh2).
    apply mret_Some in Hasm as [-> ->].
    apply mret_Some in Hr as [-> ->].
    exists [], (connectionNo st).
    split; [| split; [| split]].
    + rewrite Hh2, with_conn_same, insert_id by exact Hs. reflexivity.
    + rewrite Htr2. reflexivity.
    + auto.
    + intros He. contradiction.
Qed.

Lemma uses_handle_not_open (c : Z) (rest : list event) :
  Forall (uses_handle c) rest -> count_opens rest = 0%nat.
Proof.
  induction 1 as [| e rest He _ IH]; [reflexivity |].
  destruct e; simpl in He; try contradiction; exact IH.
Qed.

(** Once a stream's handle is not the sentinel, any sequence of calls only
    reads and writes on that handle and never opens a connection. *)
Lemma run_ops_opened (H : host) (s : N) (ops : list stream_op) :
  forall (w w' : world) (st : emscriptenhttp_stream) (x : unit),
  heap w !! s = Some (BStream st) -> connectionNo st <> -1 ->
  run_ops H s ops w = Some (x, w') ->
  exists rest, trace w' = trace w ++ rest /\
    Forall (uses_handle (connectionNo st)) rest /\
    heap w' !! s = Some (BStream st).
Proof.
  induction ops as [| op ops IH]; intros w w' st x Hs Hc Hr.
  - apply mret_Some in Hr as [_ ->]. exists []. rewrite app_nil_r. auto.
  - destruct op as [n | n]; simpl in Hr; inv_bind_as Hr r1 w1 Hstep.
    + destruct (read_step H s n w w1 st r1 Hs Hstep)
        as (opened & c & Hh & Htr & Hopened & _).
      destruct (Hopened Hc) as [-> ->].
      rewrite with_conn_same in Hh.
      assert (Hs1 : heap w1 !! s = Some (BStream st))
        by (rewrite Hh; apply lookup_insert_eq).
      destruct (IH w1 w' st x Hs1 Hc Hr) as (rest & Htr' & Hall & Hs').
      exists (EvRead (connectionNo st) n :: rest).
      split; [rewrite Htr', Htr; simpl; rewrite <- app_assoc; reflexivity |].
      split; [constructor; [reflexivity | exact Hall] | exact Hs'].
    + destruct (write_step H s n w w1 st r1 Hs Hstep)
        as (opened & c & Hh & Htr & Hopened & _).
      destruct (Hopened Hc) as [-> ->].
      rewrite with_conn_same in Hh.
      assert (Hs1 : heap w1 !! s = Some (BStream st))
        by (rewrite Hh; apply lookup_insert_eq).
      destruct (IH w1 w' st x Hs1 Hc Hr) as (rest & Htr' & Hall & Hs').
      exists (EvWrite (connectionNo st) n :: rest).
      split; [rewrite Htr', Htr; simpl; rewrite <- app_assoc; reflexivity |].
      split; [constructor; [reflexivity | exact Hall] | exact Hs'].
Qed.

Lemma stream_read_live (H : host) (s : N) (n : Z) (w : world) r :
  emscriptenhttp_stream_read H s n w = Some r ->
  exists st, heap w !! s = Some (BStream st).
Proof.
  destruct r as [r w']. intros Hr. unfold emscriptenhttp_stream_read in Hr.
  inv_bind_as Hr st1 w1 Hload1. apply load_stream_Some in Hload1 as [_ Hs].
  eauto.
Qed.

Lemma stream_write_live (H : host) (s : N) (n : Z) (w : world) r :
  emscriptenhttp_stream_write_single H s n w = Some r ->
  exists st, heap w !! s = Some (BStream st).
Proof.
  destruct r as [r w']. intros Hr. unfold emscriptenhttp_stream_write_single in Hr.
  inv_bind_as Hr st1 w1 Hload1. apply load_stream_Some in Hload1 as [_ Hs].
  eauto.
Qed.

(** Calls on a stream only append to the trace of host calls. *)
Lemma run_ops_extends (H : host) (s : N) (ops : list stream_op) :
  forall (w w' : world) (x : unit),
  run_ops H s ops w = Some (x, w') -> exists rest, trace w' = trace w ++ rest.
Proof.
  induction ops as [| op ops IH]; intros w w' x Hr.
  - apply mret_Some in Hr as [_ ->]. exists []. rewrite app_nil_r. auto.
  - destruct op as [n | n]; simpl in Hr; inv_bind_as Hr r1 w1 Hstep.
    + destruct (stream_read_live H s n w _ Hstep) as [st Hs].
      destruct (read_step H s n w w1 st r1 Hs Hstep)
        as (opened & c & _ & Htr & _).
      destruct (IH w1 w' x Hr) as [rest Htr'].
      exists ((opened ++ [EvRead c n]) ++ rest).
      rewrite Htr', Htr, <- app_assoc. reflexivity.
    + destruct (stream_write_live H s n w _ Hstep) as [st Hs].
      destruct (write_step H s n w w1 st r1 Hs Hstep)
        as (opened & c & _ & Htr & _).
      destruct (IH w1 w' x Hr) as [rest Htr'].
      exists ((opened ++ [EvWrite c n]) ++ rest).
      rewrite Htr', Htr, <- app_assoc. reflexivity.
Qed.

Lemma count_opens_app (l1 l2 : list event) :
  count_opens (l1 ++ l2) = (count_opens l1 + count_opens l2)%nat.
Proof. unfold count_opens. rewrite filter_app, length_app. reflexivity. Qed.

Lemma opens_with_open (op : stream_op) (e : event) :
  opens_with op e -> is_open_event e = true.
Proof. destruct op, e; simpl; tauto. Qed.

Lemma count_opens_first (e : event) (op : stream_op) (c : Z) (rest : list event) :
  is_open_event e = true ->
  count_opens (e :: call_event op c :: rest) = S (count_opens rest).
Proof.
  intros He. unfold count_opens.
  rewrite filter_cons_True by exact He.
  rewrite filter_cons_False by (destruct op; simpl; discriminate).
  reflexivity.
Qed.

(** The first call on an unopened stream: it opens with its own method,
    then reads or writes on the handle the open returned, which is stored
    in the stream. *)
Lemma run_ops_first_call (H : host) (s : N) (op : stream_op) (ops : list stream_op)
    (w w' : world) (st : emscriptenhttp_stream) (x : unit) :
  heap w !! s = Some (BStream st) -> connectionNo st = -1 ->
  run_ops H s (op :: ops) w = Some (x, w') ->
  exists e c w1,
    heap w1 !! s = Some (BStream (with_conn st c)) /\
    trace w1 = trace w ++ [e; call_event op c] /\
    run_ops H s ops w1 = Some (x, w') /\
    match op with
    | OpRead _ =>
        exists u, e = EvConnectGet u DEFAULT_BUFSIZE /\
          c = wasm_i32 (emscriptenhttpconnect_get H (trace w) u DEFAULT_BUFSIZE)
    | OpWrite _ =>
        exists u, e = EvConnectPost u DEFAULT_BUFSIZE (post_content_type u) /\
          c = wasm_i32 (emscriptenhttpconnect_post H (trace w) u DEFAULT_BUFSIZE
                          (post_content_type u))
    end.
Proof.
  intros Hs Hc Hr.
  destruct op as [n | n]; simpl in Hr; inv_bind_as Hr r1 w1 Hstep.
  - destruct (read_step H s n w w1 st r1 Hs Hstep)
      as (opened & c & Hh & Htr & _ & Hfresh).
    destruct (Hfresh Hc) as (u & _ & -> & Hcv).
    exists (EvConnectGet u DEFAULT_BUFSIZE), c, w1.
    split; [rewrite Hh; apply lookup_insert_eq |].
    split; [exact Htr |]. split; [exact Hr |]. eauto.
  - destruct (write_step H s n w w1 st r1 Hs Hstep)
      as (opened & c & Hh & Htr & _ & Hfresh).
    destruct (Hfresh Hc) as (u & _ & -> & Hcv).
    exists (EvConnectPost u DEFAULT_BUFSIZE (post_content_type u)), c, w1.
    split; [rewrite Hh; apply lookup_insert_eq |].
    split; [exact Htr |]. split; [exact Hr |]. eauto.
Qed.

(** A sequence of calls on an unopened stream: the first call opens; if
    the handle it gets is not the sentinel, every later event is a read or
    write on it; if it is the sentinel, the next call opens again with its
    own method. *)
Lemma run_ops_first_open (H : host) (s : N) (op : stream_op) (ops : list stream_op)
    (w w' : world) (st : emscriptenhttp_stream) (x : unit) :
  heap w !! s = Some (BStream st) -> connectionNo st = -1 ->
  run_ops H s (op :: ops) w = Some (x, w') ->
  exists e c rest,
    trace w' = trace w ++ e :: call_event op c :: rest /\
    opens_with op e /\
    match op with
    | OpRead _ =>
        exists u, e = EvConnectGet u DEFAULT_BUFSIZE /\
          c = wasm_i32 (emscriptenhttpconnect_get H (trace w) u DEFAULT_BUFSIZE)
    | OpWrite _ =>
        exists u, e = EvConnectPost u DEFAULT_BUFSIZE (post_content_type u) /\
          c = wasm_i32 (emscriptenhttpconnect_post H (trace w) u DEFAULT_BUFSIZE
                          (post_content_type u))
    end /\
    (c <> -1 -> Forall (uses_handle c) rest) /\
    (c = -1 -> forall op2 ops2, ops = op2 :: ops2 ->
       exists e2 rest2, rest = e2 :: rest2 /\ opens_with op2 e2).
Proof.
  intros Hs Hc Hr.
  destruct (run_ops_first_call H s op ops w w' st x Hs Hc Hr)
    as (e & c & w1 & Hs1 & Htr1 & Hr1 & Hop).
  destruct (run_ops_extends H s ops w1 w' x Hr1) as [rest Htr'].
  exists e, c, rest.
  split; [rewrite Htr', Htr1, <- app_assoc; reflexivity |].
  split; [destruct op; [destruct Hop as (u & -> & _) | destruct Hop as (u & -> & _)];
          exact I |].
  split; [exact Hop |]. split.
  - intros Hcn.
    destruct (run_ops_opened H s ops w1 w' (with_conn st c) x Hs1 Hcn Hr1)
      as (rest' & Htr'' & Hall & _).
    rewrite Htr' in Htr''. apply app_inv_head in Htr''. subst rest'. exact Hall.
  - intros Hcm op2 ops2 ->.
    destruct (run_ops_first_call H s op2 ops2 w1 w' (with_conn st c) x Hs1 Hcm Hr1)
      as (e2 & c2 & w2 & _ & Htr2 & Hr2 & Hop2).
    destruct (run_ops_extends H s ops2 w2 w' x Hr2) as [rest2 Hrest2].
    exists e2, (call_event op2 c2 :: rest2). split.
    + rewrite Htr' in Hrest2. rewrite Htr2, <- app_assoc in Hrest2.
      apply app_inv_head in Hrest2. exact Hrest2.
    + destruct op2; [destruct Hop2 as (u & -> & _) | destruct Hop2 as (u & -> & _)];
        exact I.
Qed.

(** ** C3 *)

(** Claim C3 as stated fails: when the host's GET primitive answers -1, the
    handle still holds the sentinel and the next read opens again; two reads
    make two opens. *)
Lemma stream_reopens_after_sentinel_handle :
  exists w',
    run_ops sentinel_host 0 [OpRead 8; OpRead 8] fresh_stream_world
      = Some (tt, w') /\
    count_opens (trace w') = 2%nat.
Proof. eexists. split; vm_compute; reflexivity. Qed.

(** Claim C3, amended: on an unopened stream the first call of a
    non-empty sequence opens a connection with its own method.  If the
    handle the host returns is not the sentinel -1, that is the only open
    of the sequence; in particular when the host's open primitives never
    answer -1 the sequence opens exactly once.  The returned handle is not
    checked: if it is -1 the stream still reads as unopened and the next
    read or write opens again.  A stream whose handle is already set never
    opens one. *)
Theorem stream_opens_once (H : host) (s : N) (ops : list stream_op)
    (w w' : world) (st : emscriptenhttp_stream) (x : unit) :
  heap w !! s = Some (BStream st) ->
  run_ops H s ops w = Some (x, w') ->
  (connectionNo st = -1 -> forall op ops', ops = op :: ops' ->
     exists e c rest,
       trace w' = trace w ++ e :: call_event op c :: rest /\
       is_open_event e = true /\ opens_with op e /\
       match op with
       | OpRead _ =>
           exists u, e = EvConnectGet u DEFAULT_BUFSIZE /\
             c = wasm_i32 (emscriptenhttpconnect_get H (trace w) u DEFAULT_BUFSIZE)
       | OpWrite _ =>
           exists u, e = EvConnectPost u DEFAULT_BUFSIZE (post_content_type u) /\
             c = wasm_i32 (emscriptenhttpconnect_post H (trace w) u
                             DEFAULT_BUFSIZE (post_content_type u))
       end /\
       (c <> -1 ->
          count_opens rest = 0%nat /\
          count_opens (trace w') = S (count_opens (trace w))) /\
       (c = -1 -> forall op2 ops2, ops' = op2 :: ops2 ->
          exists e2 rest2, rest = e2 :: rest2 /\
            is_open_event e2 = true /\ opens_with op2 e2)) /\
  ((forall tr u n, wasm_i32 (emscriptenhttpconnect_get H tr u n) <> -1) ->
   (forall tr u n ct, wasm_i32 (emscriptenhttpconnect_post H tr u n ct) <> -1) ->
   connectionNo st = -1 -> ops <> [] ->
   count_opens (trace w') = S (count_opens (trace w))) /\
  (connectionNo st <> -1 -> count_opens (trace w') = count_opens (trace w)).
Proof.
  intros Hs Hr.
  assert (Hfresh : connectionNo st = -1 -> forall op ops', ops = op :: ops' ->
     exists e c rest,
       trace w' = trace w ++ e :: call_event op c :: rest /\
       is_open_event e = true /\ opens_with op e /\
       match op with
       | OpRead _ =>
           exists u, e = EvConnectGet u DEFAULT_BUFSIZE /\
             c = wasm_i32 (emscriptenhttpconnect_get H (trace w) u DEFAULT_BUFSIZE)
       | OpWrite _ =>
           exists u, e = EvConnectPost u DEFAULT_BUFSIZE (post_content_type u) /\
             c = wasm_i32 (emscriptenhttpconnect_post H (trace w) u
                             DEFAULT_BUFSIZE (post_content_type u))
       end /\
       (c <> -1 ->
          count_opens rest = 0%nat /\
          count_opens (trace w') = S (count_opens (trace w))) /\
       (c = -1 -> forall op2 ops2, ops' = op2 :: ops2 ->
          exists e2 rest2, rest = e2 :: rest2 /\
            is_open_event e2 = true /\ opens_with op2 e2)).
  { intros Hc op ops' ->.
    destruct (run_ops_first_open H s op ops' w w' st x Hs Hc Hr)
      as (e & c & rest & Htr & Hwith & Hop & Hall & Hagain).
    pose proof (opens_with_open op e Hwith) as He.
    exists e, c, rest. split; [exact Htr |]. split; [exact He |].
    split; [exact Hwith |]. split; [exact Hop |]. split.
    - intros Hcn. pose proof (uses_handle_not_open c rest (Hall Hcn)) as Hrest.
      split; [exact Hrest |].
      rewrite Htr, count_opens_app, count_opens_first by exact He.
      rewrite Hrest. lia.
    - intros Hcm op2 ops2 Heq.
      destruct (Hagain Hcm op2 ops2 Heq) as (e2 & rest2 & -> & Hw2).
      exists e2, rest2. split; [reflexivity |].
      split; [exact (opens_with_open op2 e2 Hw2) | exact Hw2]. }
  split; [exact Hfresh |]. split.
  - intros Hget Hpost Hc Hne. destruct ops as [| op ops']; [contradiction |].
    destruct (Hfresh Hc op ops' eq_refl)
      as (e & c & rest & _ & _ & _ & Hop & Hcount & _).
    apply Hcount.
    destruct op; [destruct Hop as (u & _ & ->) | destruct Hop as (u & _ & ->)];
      auto.
  - intros Hc.
    destruct (run_ops_opened H s ops w w' st x Hs Hc Hr) as (rest & Htr & Hall & _).
    rewrite Htr, count_opens_app, (uses_handle_not_open _ _ Hall). lia.
Qed.

Lemma stream_opens_once_witness :
  exists w',
    run_ops sentinel_host 0 [OpRead 8; OpWrite 4] fresh_stream_world
      = Some (tt, w') /\
    exists e c rest,
      trace w' = e :: call_event (OpRead 8) c :: rest /\ c = -1 /\
      exists e2 rest2, rest = e2 :: rest2 /\ is_open_event e2 = true.
Proof.
  eexists. split; [vm_compute; reflexivity |].
  destruct (stream_opens_once sentinel_host 0 [OpRead 8; OpWrite 4]
              fresh_stream_world _ _ tt
              ltac:(vm_compute; reflexivity)
              ltac:(vm_compute; reflexivity)) as [Hfresh _].
  destruct (Hfresh ltac:(vm_compute; reflexivity) (OpRead 8) [OpWrite 4] eq_refl)
    as (e & c & rest & Htr & _ & _ & (u & _ & Hcv) & _ & Hagain).
  vm_compute in Hcv.
  destruct (Hagain Hcv (OpWrite 4) [] eq_refl) as (e2 & rest2 & Hrest & He2 & _).
  exists e, c, rest. split; [exact Htr |]. split; [exact Hcv |].
  exists e2, rest2. split; [exact Hrest | exact He2].
Defined.

(** ** C9 *)

(** Claim C9 as stated fails: after a read whose GET answered the sentinel
    -1, a write on the same stream opens a POST connection. *)
Lemma write_posts_after_sentinel_get :
  exists w',
    run_ops sentinel_host 0 [OpRead 8; OpWrite 4] fresh_stream_world
      = Some (tt, w') /\
    trace w' =
      [EvConnectGet "https://h/r/info/refs?service=git-upload-pack" 65536;
       EvRead (-1) 8;
       EvConnectPost "https://h/r/info/refs?service=git-upload-pack" 65536
         "application/x-git-upload-pack-request";
       EvWrite 5 4].
Proof. eexists. split; vm_compute; reflexivity. Qed.

(** Claim C9, amended: on an unopened stream the first call opens the
    connection with its own method (GET for a read, POST for a write) and
    then reads or writes on the handle the host returned.  If that handle
    is not the sentinel -1, every later call, read or write, only reads or
    writes on that handle and no GET or POST is issued again.  If it is
    -1, the next call opens again with its own method.  On a stream whose
    handle is set no call opens. *)
Theorem stream_handle_reused (H : host) (s : N) (ops : list stream_op)
    (w w' : world) (st : emscriptenhttp_stream) (x : unit) :
  heap w !! s = Some (BStream st) ->
  run_ops H s ops w = Some (x, w') ->
  (connectionNo st <> -1 ->
     exists rest, trace w' = trace w ++ rest /\
       Forall (uses_handle (connectionNo st)) rest) /\
  (connectionNo st = -1 -> forall op ops', ops = op :: ops' ->
     exists e c rest,
       trace w' = trace w ++ e :: call_event op c :: rest /\
       opens_with op e /\
       match op with
       | OpRead _ =>
           exists u, e = EvConnectGet u DEFAULT_BUFSIZE /\
             c = wasm_i32 (emscriptenhttpconnect_get H (trace w) u DEFAULT_BUFSIZE)
       | OpWrite _ =>
           exists u, e = EvConnectPost u DEFAULT_BUFSIZE (post_content_type u) /\
             c = wasm_i32 (emscriptenhttpconnect_post H (trace w) u
                             DEFAULT_BUFSIZE (post_content_type u))
       end /\
       (c <> -1 -> Forall (uses_handle c) rest) /\
       (c = -1 -> forall op2 ops2, ops' = op2 :: ops2 ->
          exists e2 rest2, rest = e2 :: rest2 /\ opens_with op2 e2)).
Proof.
  intros Hs Hr. split.
  - intros Hc.
    destruct (run_ops_opened H s ops w w' st x Hs Hc Hr) as (rest & Htr & Hall & _).
    eauto.
  - intros Hc op ops' ->.
    exact (run_ops_first_open H s op ops' w w' st x Hs Hc Hr).
Qed.

Lemma stream_handle_reused_witness :
  exists w',
    run_ops sentinel_host 0 [OpRead 8; OpWrite 4] fresh_stream_world
      = Some (tt, w') /\
    exists e c rest,
      trace w' = e :: call_event (OpRead 8) c :: rest /\ c = -1 /\
      exists e2 rest2, rest = e2 :: rest2 /\ opens_with (OpWrite 4) e2.
Proof.
  eexists. split; [vm_compute; reflexivity |].
  destruct (stream_handle_reused sentinel_host 0 [OpRead 8; OpWrite 4]
              fresh_stream_world _ _ tt
              ltac:(vm_compute; reflexivity)
              ltac:(vm_compute; reflexivity)) as [_ Hfresh].
  destruct (Hfresh ltac:(vm_compute; reflexivity) (OpRead 8) [OpWrite 4] eq_refl)
    as (e & c & rest & Htr & _ & (u & _ & Hcv) & _ & Hagain).
  vm_compute in Hcv.
  exists e, c, rest. split; [exact Htr |]. split; [exact Hcv |].
  exact (Hagain Hcv (OpWrite 4) [] eq_refl).
Defined.

Lemma write_fire_and_forget_witness :
  exists w',
    emscriptenhttp_stream_write_single aborting_host 0 4 fresh_stream_world
      = Some (0, w').
Proof.
  destruct (write_fire_and_forget aborting_host (fun _ _ _ => 7) 0 4
              fresh_stream_world) as (_ & _ & Hlive).
  apply (Hlive "https://h/r/info/refs?service=git-upload-pack"%string).
  vm_compute. reflexivity.
Defined.

(** ** C4 *)

(** Claim C4: the content type of the POST is chosen by
    [urlString.indexOf('git-upload-pack') > 0], which misses an occurrence
    at position 0.  A stream of the upload-pack action for the base URL
    "git-upload-pack" has the service URL
    "git-upload-pack/git-upload-pack", which mentions git-upload-pack, yet
    its first write opens the POST with the receive-pack content type. *)
Lemma upload_pack_url_posts_receive_pack_type :
  exists s w1 w2,
    emscriptenhttp_action 0 "git-upload-pack" GIT_SERVICE_UPLOADPACK empty_world
      = Some ((0, Some s), w1) /\
    stream_service_url w1 s = Some "git-upload-pack/git-upload-pack"%string /\
    emscriptenhttp_stream_write_single aborting_host s 4 w1 = Some (0, w2) /\
    trace w2 =
      [EvConnectPost "git-upload-pack/git-upload-pack" 65536
         "application/x-git-receive-pack-request";
       EvWrite 3 4].
Proof.
  do 3 eexists. split; [vm_compute; reflexivity |].
  split; [vm_compute; reflexivity |].
  split; vm_compute; reflexivity.
Qed.

(** * Further properties of the transport *)

(** The world after [emscriptenhttp_action]: the stream is allocated at
    [next_loc w]; for the four services the URL buffer follows it. *)
Lemma action_shape (t : N) (base : string) (act : Z) (w : world) :
  exists w',
    emscriptenhttp_action t base act w = Some ((0, Some (next_loc w)), w') /\
    trace w' = trace w /\ last_error w' = last_error w /\
    (forall l, l <> next_loc w -> l <> (next_loc w + 1)%N ->
       heap w' !! l = heap w !! l) /\
    match action_suffix act with
    | Some sfx =>
        heap w' !! next_loc w =
          Some (BStream {| stream_subtransport := t;
                           service_url := CHeap (next_loc w + 1);
                           connectionNo := -1 |}) /\
        heap w' !! (next_loc w + 1)%N = Some (BStr (String.append base sfx)) /\
        next_loc w' = (next_loc w + 2)%N
    | None =>
        heap w' !! next_loc w =
          Some (BStream {| stream_subtransport := t;
                           service_url := CStatic "";
                           connectionNo := -1 |}) /\
        heap w' !! (next_loc w + 1)%N = heap w !! (next_loc w + 1)%N /\
        next_loc w' = (next_loc w + 1)%N
    end.
Proof.
  unfold emscriptenhttp_action, action_suffix, emscriptenhttp_stream_alloc.
  destruct (decide (act = GIT_SERVICE_UPLOADPACK_LS)); [|
  destruct (decide (act = GIT_SERVICE_UPLOADPACK)); [|
  destruct (decide (act = GIT_SERVICE_RECEIVEPACK_LS)); [|
  destruct (decide (act = GIT_SERVICE_RECEIVEPACK))]]];
  unfold git_str_printf2; unfold_m; simpl; map_simp;
  (eexists; split; [reflexivity |]); simpl;
  (split; [reflexivity |]); (split; [reflexivity |]);
  (split; [intros l H1 H2; map_simp; reflexivity |]);
  map_simp; (split; [reflexivity |]); split; try lia; map_simp; reflexivity.
Qed.

(** [git_smart_subtransport_http]: a NULL [out] gives -1 and changes
    nothing; otherwise the subtransport is allocated at a fresh address with
    its [owner] set, nothing else changes and 0 is returned. *)
Theorem subtransport_http_result (owner_ptr : Z) (w : world) :
  git_smart_subtransport_http false owner_ptr w = Some ((-1, None), w) /\
  git_smart_subtransport_http true owner_ptr w =
    Some ((0, Some (next_loc w)),
          {| heap := <[next_loc w := BSubtransport {| owner := owner_ptr |}]> (heap w);
             next_loc := (next_loc w + 1)%N; trace := trace w;
             last_error := last_error w |}).
Proof.
  split; [reflexivity |].
  unfold git_smart_subtransport_http. unfold_m. simpl. map_simp.
  rewrite insert_insert_eq. reflexivity.
Qed.

(** [emscriptenhttp_stream_alloc]: a NULL out pointer gives -1 without
    allocating; otherwise the stream is allocated at a fresh address with
    the back pointer to its subtransport, no service URL yet (NULL) and the
    unopened handle -1. *)
Theorem stream_alloc_result (t : N) (w : world) :
  emscriptenhttp_stream_alloc t false w = Some ((-1, None), w) /\
  emscriptenhttp_stream_alloc t true w =
    Some ((0, Some (next_loc w)),
          {| heap := <[next_loc w := BStream {| stream_subtransport := t;
                                                service_url := CNull;
                                                connectionNo := -1 |}]> (heap w);
             next_loc := (next_loc w + 1)%N; trace := trace w;
             last_error := last_error w |}).
Proof.
  split; [reflexivity |].
  unfold emscriptenhttp_stream_alloc. unfold_m. simpl. map_simp.
  rewrite insert_insert_eq. reflexivity.
Qed.

(** [emscriptenhttp_action] makes no host call and sets no error: it only
    allocates (the stream at the next free address, unopened, and for the
    four services its URL buffer after it) and leaves every block allocated
    before untouched. *)
Theorem action_no_host_effects (t : N) (base : string) (act : Z) (w : world) :
  exists w' url,
    emscriptenhttp_action t base act w = Some ((0, Some (next_loc w)), w') /\
    trace w' = trace w /\ last_error w' = last_error w /\
    (forall l, (l < next_loc w)%N -> heap w' !! l = heap w !! l) /\
    heap w' !! next_loc w =
      Some (BStream {| stream_subtransport := t; service_url := url;
                       connectionNo := -1 |}) /\
    (next_loc w < next_loc w')%N.
Proof.
  destruct (action_shape t base act w) as (w' & Ha & Htr & Herr & Hframe & Hsh).
  destruct (action_suffix act) as [sfx |];
    destruct Hsh as (Hs & _ & Hnext); eexists w', _;
    (split; [exact Ha |]); (split; [exact Htr |]); (split; [exact Herr |]);
    (split; [intros l Hl; apply Hframe; lia |]);
    (split; [exact Hs | lia]).
Qed.

(** [emscriptenhttp_stream_free] releases only the stream block: the URL
    buffer that [emscriptenhttp_action] allocated for one of the four
    services stays allocated after the stream is freed. *)
Theorem stream_free_keeps_url_buffer (t : N) (base : string) (act : Z)
    (sfx : string) (w : world) :
  action_suffix act = Some sfx ->
  exists w1 w2,
    emscriptenhttp_action t base act w = Some ((0, Some (next_loc w)), w1) /\
    emscriptenhttp_stream_free (next_loc w) w1 = Some (tt, w2) /\
    heap w2 !! next_loc w = None /\
    heap w2 !! (next_loc w + 1)%N = Some (BStr (String.append base sfx)).
Proof.
  intros Hsfx.
  destruct (action_shape t base act w) as (w1 & Ha & _ & _ & _ & Hsh).
  rewrite Hsfx in Hsh. destruct Hsh as (Hs & Hb & _).
  exists w1, (set_heap (delete (next_loc w) (heap w1)) w1).
  split; [exact Ha |].
  split; [unfold emscriptenhttp_stream_free; unfold_m; simpl; rewrite Hs;
          simpl; rewrite Hs; reflexivity |].
  simpl. split; [apply lookup_delete_eq |].
  rewrite lookup_delete_ne by lia. exact Hb.
Qed.

Lemma stream_free_keeps_url_buffer_witness :
  action_suffix GIT_SERVICE_RECEIVEPACK = Some receive_pack_service_url /\
  exists w1 w2,
    emscriptenhttp_action 0 "https://h/r" GIT_SERVICE_RECEIVEPACK empty_world
      = Some ((0, Some 0%N), w1) /\
    emscriptenhttp_stream_free 0 w1 = Some (tt, w2) /\
    heap w2 !! 0%N = None /\
    heap w2 !! 1%N = Some (BStr "https://h/r/git-receive-pack").
Proof.
  split; [reflexivity |].
  exact (stream_free_keeps_url_buffer 0 "https://h/r" GIT_SERVICE_RECEIVEPACK
           receive_pack_service_url empty_world eq_refl).
Defined.

(** The stream returned by [emscriptenhttp_action] is unopened and its
    service URL reads back as the printed URL (the empty string when the
    action is none of the four services). *)
Lemma action_stream (t : N) (base : string) (act : Z) (w : world) :
  exists w1 st,
    emscriptenhttp_action t base act w = Some ((0, Some (next_loc w)), w1) /\
    trace w1 = trace w /\ last_error w1 = last_error w /\
    heap w1 !! next_loc w = Some (BStream st) /\ connectionNo st = -1 /\
    UTF8ToString (service_url st) w1 =
      Some (match action_suffix act with
            | Some sfx => String.append base sfx
            | None => ""%string
            end, w1).
Proof.
  destruct (action_shape t base act w) as (w1 & Ha & Htr & Herr & _ & Hsh).
  destruct (action_suffix act) as [sfx |];
    destruct Hsh as (Hs & Hb & _); eexists w1, _;
    (split; [exact Ha |]); (split; [exact Htr |]); (split; [exact Herr |]);
    (split; [exact Hs |]); split; try reflexivity.
  unfold UTF8ToString. simpl. rewrite Hb. reflexivity.
Qed.

(** [emscriptenhttp_stream_read] on a stream fresh from
    [emscriptenhttp_action]: the first host call is the GET of the printed
    service URL (the empty URL for an unknown service) with the default
    buffer size, and the read then goes to the handle the GET returned. *)
Theorem action_first_read_gets_service_url (H : host) (t : N) (base : string)
    (act : Z) (n : Z) (w w1 w2 : world) (r : Z * option Z) :
  emscriptenhttp_action t base act w = Some ((0, Some (next_loc w)), w1) ->
  emscriptenhttp_stream_read H (next_loc w) n w1 = Some (r, w2) ->
  let url := match action_suffix act with
             | Some sfx => String.append base sfx
             | None => ""%string
             end in
  trace w2 = trace w ++
    [EvConnectGet url DEFAULT_BUFSIZE;
     EvRead (wasm_i32 (emscriptenhttpconnect_get H (trace w) url DEFAULT_BUFSIZE)) n].
Proof.
  intros Ha Hr url.
  destruct (action_stream t base act w) as (w1' & st & Ha' & Htr & _ & Hs & Hc & Hu).
  rewrite Ha' in Ha. injection Ha as <-.
  destruct (read_step H _ n w1' w2 st r Hs Hr) as (opened & c & _ & Htr2 & _ & Hfresh).
  destruct (Hfresh Hc) as (u & Hu' & -> & ->).
  rewrite Hu in Hu'. injection Hu' as <-.
  rewrite Htr2, Htr. reflexivity.
Qed.

Lemma action_first_read_gets_service_url_witness :
  exists w1 r w2,
    emscriptenhttp_action 0 "https://h/r" GIT_SERVICE_UPLOADPACK_LS empty_world
      = Some ((0, Some 0%N), w1) /\
    emscriptenhttp_stream_read five_byte_host 0 100 w1 = Some (r, w2) /\
    trace w2 = [EvConnectGet "https://h/r/info/refs?service=git-upload-pack" 65536;
                EvRead (wasm_i32 (emscriptenhttpconnect_get five_byte_host []
                  "https://h/r/info/refs?service=git-upload-pack" 65536)) 100].
Proof.
  do 3 eexists.
  split; [vm_compute; reflexivity |].
  split; [vm_compute; reflexivity |].
  exact (action_first_read_gets_service_url five_byte_host 0 "https://h/r"
           GIT_SERVICE_UPLOADPACK_LS 100 empty_world _ _ _
           (ltac:(vm_compute; reflexivity)) (ltac:(vm_compute; reflexivity))).
Defined.

(** [emscriptenhttp_stream_write_single] on a stream fresh from
    [emscriptenhttp_action]: the first host call is the POST of the printed
    service URL with the default buffer size and the content type chosen
    from that URL, and the write then goes to the handle the POST
    returned. *)
Theorem action_first_write_posts_service_url (H : host) (t : N) (base : string)
    (act : Z) (n : Z) (w w1 w2 : world) (r : Z) :
  emscriptenhttp_action t base act w = Some ((0, Some (next_loc w)), w1) ->
  emscriptenhttp_stream_write_single H (next_loc w) n w1 = Some (r, w2) ->
  let url := match action_suffix act with
             | Some sfx => String.append base sfx
             | None => ""%string
             end in
  trace w2 = trace w ++
    [EvConnectPost url DEFAULT_BUFSIZE (post_content_type url);
     EvWrite (wasm_i32 (emscriptenhttpconnect_post H (trace w) url DEFAULT_BUFSIZE
                          (post_content_type url))) n].
Proof.
  intros Ha Hr url.
  destruct (action_stream t base act w) as (w1' & st & Ha' & Htr & _ & Hs & Hc & Hu).
  rewrite Ha' in Ha. injection Ha as <-.
  destruct (write_step H _ n w1' w2 st r Hs Hr) as (opened & c & _ & Htr2 & _ & Hfresh).
  destruct (Hfresh Hc) as (u & Hu' & -> & ->).
  rewrite Hu in Hu'. injection Hu' as <-.
  rewrite Htr2, Htr. reflexivity.
Qed.

Lemma action_first_write_posts_service_url_witness :
  exists w1 r w2,
    emscriptenhttp_action 0 "https://h/r" GIT_SERVICE_RECEIVEPACK empty_world
      = Some ((0, Some 0%N), w1) /\
    emscriptenhttp_stream_write_single aborting_host 0 7 w1 = Some (r, w2) /\
    trace w2 = [EvConnectPost "https://h/r/git-receive-pack" 65536
                  (post_content_type "https://h/r/git-receive-pack");
                EvWrite (wasm_i32 (emscriptenhttpconnect_post aborting_host []
                  "https://h/r/git-receive-pack" 65536
                  (post_content_type "https://h/r/git-receive-pack"))) 7].
Proof.
  do 3 eexists.
  split; [vm_compute; reflexivity |].
  split; [vm_compute; reflexivity |].
  exact (action_first_write_posts_service_url aborting_host 0 "https://h/r"
           GIT_SERVICE_RECEIVEPACK 7 empty_world _ _ _
           (ltac:(vm_compute; reflexivity)) (ltac:(vm_compute; reflexivity))).
Defined.

(** ** The content type of the POST *)

Lemma str_app_assoc (a b c : string) :
  String.append (String.append a b) c = String.append a (String.append b c).
Proof. induction a as [| x a IH]; [reflexivity |]. exact (f_equal (String x) IH). Qed.

Lemma index0_cons (p : string) (b : Ascii.ascii) (s : string) :
  String.index 0 p (String b s) =
    if String.prefix p (String b s) then Some 0%nat
    else match String.index 0 p s with
         | Some n => Some (S n)
         | None => None
         end.
Proof. reflexivity. Qed.

Lemma prefix_refl (p : string) : String.prefix p p = true.
Proof.
  induction p as [| a p IH]; simpl; [reflexivity |].
  destruct (Ascii.ascii_dec a a); [exact IH | congruence].
Qed.

Lemma index_app_self (p s : string) :
  exists k, String.index 0 p (String.append s p) = Some k.
Proof.
  induction s as [| b s IH].
  - change (String.append "" p) with p.
    destruct p as [| a p]; [exists 0%nat; reflexivity |].
    exists 0%nat. rewrite index0_cons, prefix_refl. reflexivity.
  - change (String.append (String b s) p) with (String b (String.append s p)).
    rewrite index0_cons. destruct (String.prefix p (String b (String.append s p))).
    + eauto.
    + destruct IH as [k ->]. eauto.
Qed.

Lemma index_Some0_prefix (p x : string) :
  String.index 0 p x = Some 0%nat -> String.prefix p x = true.
Proof.
  destruct x as [| b x].
  - destruct p; simpl; [auto | discriminate].
  - rewrite index0_cons. destruct (String.prefix p (String b x)); [auto |].
    destruct (String.index 0 p x); discriminate.
Qed.

(** A pattern without '/' that does not start [base] does not start
    [base ++ "/" ++ rest] either. *)
Lemma prefix_app_slash (p base rest : string) :
  (forall i, String.get i p <> Some "/"%char) -> p <> ""%string ->
  String.prefix p base = false ->
  String.prefix p (String.append base (String "/"%char rest)) = false.
Proof.
  revert p. induction base as [| b base IH]; intros p Hns Hne Hpre.
  - destruct p as [| a p]; [congruence |]. simpl.
    destruct (Ascii.ascii_dec a "/") as [e |]; [| reflexivity].
    exfalso. apply (Hns 0%nat). simpl. rewrite e. reflexivity.
  - destruct p as [| a p]; [congruence |]. simpl in Hpre |- *.
    destruct (Ascii.ascii_dec a b); [| reflexivity].
    apply IH; auto.
    + intros i. exact (Hns (S i)).
    + intros ->. destruct base; discriminate.
Qed.

(** A pattern without '/' occurs in [base ++ "/" ++ rest] only if it
    occurs in [base] or in ["/" ++ rest]. *)
Lemma index_app_slash_none (p base rest : string) :
  (forall i, String.get i p <> Some "/"%char) -> p <> ""%string ->
  String.index 0 p base = None -> String.index 0 p (String "/"%char rest) = None ->
  String.index 0 p (String.append base (String "/"%char rest)) = None.
Proof.
  induction base as [| b base IH]; intros Hns Hne Hb Hr; [exact Hr |].
  change (String.append (String b base) (String "/"%char rest))
    with (String b (String.append base (String "/"%char rest))).
  rewrite index0_cons. rewrite index0_cons in Hb.
  destruct (String.prefix p (String b base)) eqn:Hp; [discriminate |].
  change (String b (String.append base (String "/"%char rest)))
    with (String.append (String b base) (String "/"%char rest)).
  rewrite (prefix_app_slash p (String b base) rest Hns Hne Hp).
  destruct (String.index 0 p base); [discriminate |].
  rewrite IH; auto.
Qed.

Lemma upload_pack_no_slash (i : nat) :
  String.get i "git-upload-pack" <> Some "/"%char.
Proof.
  do 15 (destruct i as [| i]; [simpl; discriminate |]). simpl. discriminate.
Qed.

Lemma post_content_type_upload (base mid : string) :
  String.prefix "git-upload-pack" base = false ->
  post_content_type
    (String.append base (String "/"%char (String.append mid "git-upload-pack")))
  = "application/x-git-upload-pack-request"%string.
Proof.
  intros Hpre. unfold post_content_type, js_indexOf.
  destruct (index_app_self "git-upload-pack" (String.append base (String "/"%char mid)))
    as [k Hk].
  rewrite str_app_assoc in Hk.
  change (String.append (String "/"%char mid) "git-upload-pack")
    with (String "/"%char (String.append mid "git-upload-pack")) in Hk.
  rewrite Hk. destruct k as [| k].
  - apply index_Some0_prefix in Hk.
    rewrite prefix_app_slash in Hk; [discriminate | exact upload_pack_no_slash
                                    | discriminate | exact Hpre].
  - replace (0 <? Z.of_nat (S k)) with true by (symmetry; apply Z.ltb_lt; lia).
    reflexivity.
Qed.

Lemma post_content_type_receive (base rest : string) :
  String.index 0 "git-upload-pack" base = None ->
  String.index 0 "git-upload-pack" (String "/"%char rest) = None ->
  post_content_type (String.append base (String "/"%char rest))
  = "application/x-git-receive-pack-request"%string.
Proof.
  intros Hb Hr. unfold post_content_type, js_indexOf.
  rewrite index_app_slash_none; [reflexivity | exact upload_pack_no_slash
                                 | discriminate | exact Hb | exact Hr].
Qed.

(** [emscriptenhttp_do_post] on the URL of an upload-pack action (advertisement
    or service): whenever the base URL does not itself start with
    "git-upload-pack", "git-upload-pack" is found past position 0 and the
    POST carries the upload-pack request content type. *)
Theorem upload_pack_action_posts_upload_type (t : N) (base : string) (act : Z)
    (w : world) :
  act = GIT_SERVICE_UPLOADPACK_LS \/ act = GIT_SERVICE_UPLOADPACK ->
  String.prefix "git-upload-pack" base = false ->
  exists w1 u,
    emscriptenhttp_action t base act w = Some ((0, Some (next_loc w)), w1) /\
    stream_service_url w1 (next_loc w) = Some u /\
    post_content_type u = "application/x-git-upload-pack-request"%string.
Proof.
  intros Hact Hpre.
  destruct (action_stream t base act w) as (w1 & st & Ha & _ & _ & Hs & _ & Hu).
  eexists w1, _. split; [exact Ha |].
  split; [unfold stream_service_url; rewrite Hs, Hu; reflexivity |].
  destruct Hact as [-> | ->].
  - exact (post_content_type_upload base "info/refs?service=" Hpre).
  - exact (post_content_type_upload base "" Hpre).
Qed.

Lemma upload_pack_action_posts_upload_type_witness :
  exists w1 u,
    emscriptenhttp_action 0 "https://h/r" GIT_SERVICE_UPLOADPACK empty_world
      = Some ((0, Some 0%N), w1) /\
    stream_service_url w1 0 = Some u /\
    post_content_type u = "application/x-git-upload-pack-request"%string.
Proof.
  exact (upload_pack_action_posts_upload_type 0 "https://h/r" GIT_SERVICE_UPLOADPACK
           empty_world (or_intror eq_refl) eq_refl).
Defined.

(** [emscriptenhttp_do_post] on the URL of a receive-pack action
    (advertisement or service): whenever the base URL does not contain
    "git-upload-pack", the POST carries the receive-pack request content
    type. *)
Theorem receive_pack_action_posts_receive_type (t : N) (base : string) (act : Z)
    (w : world) :
  act = GIT_SERVICE_RECEIVEPACK_LS \/ act = GIT_SERVICE_RECEIVEPACK ->
  String.index 0 "git-upload-pack" base = None ->
  exists w1 u,
    emscriptenhttp_action t base act w = Some ((0, Some (next_loc w)), w1) /\
    stream_service_url w1 (next_loc w) = Some u /\
    post_content_type u = "application/x-git-receive-pack-request"%string.
Proof.
  intros Hact Hb.
  destruct (action_stream t base act w) as (w1 & st & Ha & _ & _ & Hs & _ & Hu).
  eexists w1, _. split; [exact Ha |].
  split; [unfold stream_service_url; rewrite Hs, Hu; reflexivity |].
  destruct Hact as [-> | ->].
  - exact (post_content_type_receive base "info/refs?service=git-receive-pack"
             Hb eq_refl).
  - exact (post_content_type_receive base "git-receive-pack" Hb eq_refl).
Qed.

Lemma receive_pack_action_posts_receive_type_witness :
  exists w1 u,
    emscriptenhttp_action 0 "https://h/r" GIT_SERVICE_RECEIVEPACK_LS empty_world
      = Some ((0, Some 0%N), w1) /\
    stream_service_url w1 0 = Some u /\
    post_content_type u = "application/x-git-receive-pack-request"%string.
Proof.
  exact (receive_pack_action_posts_receive_type 0 "https://h/r"
           GIT_SERVICE_RECEIVEPACK_LS empty_world (or_introl eq_refl) eq_refl).
Defined.

(** ** What the stream operations leave alone *)

Lemma host_call_meta (e : event) (f : list event -> Z) (w w1 : world) (r : Z) :
  host_call e f w = Some (r, w1) ->
  next_loc w1 = next_loc w /\ last_error w1 = last_error w.
Proof. unfold host_call. intros Hc. inversion Hc. auto. Qed.

(** Opening the connection (the [if] block shared by read and write)
    allocates nothing and sets no error. *)
Lemma open_meta (s : N) (st : emscriptenhttp_stream) (op : cstr -> Z -> M Z)
    (w w1 : world) (x : unit) :
  (forall u n w w' c, op u n w = Some (c, w') ->
     next_loc w' = next_loc w /\ last_error w' = last_error w) ->
  (if decide (connectionNo st = -1) then
     c ← op (service_url st) DEFAULT_BUFSIZE;
     store_stream s {| stream_subtransport := stream_subtransport st;
                       service_url := service_url st; connectionNo := c |}
   else mret tt) w = Some (x, w1) ->
  next_loc w1 = next_loc w /\ last_error w1 = last_error w.
Proof.
  intros Hop. destruct (decide (connectionNo st = -1)); intros Hopen.
  - inv_bind_as Hopen c w2 Hc. apply Hop in Hc as [Hn He].
    apply store_stream_Some in Hopen as ->. simpl. auto.
  - apply mret_Some in Hopen as [_ ->]. auto.
Qed.

Lemma do_get_meta (H : host) (u : cstr) (n : Z) (w w' : world) (c : Z) :
  emscriptenhttp_do_get H u n w = Some (c, w') ->
  next_loc w' = next_loc w /\ last_error w' = last_error w.
Proof.
  unfold emscriptenhttp_do_get. intros Hg.
  inv_bind_as Hg v w1 Hutf. apply UTF8ToString_Some in Hutf as ->.
  inv_bind_as Hg r w2 Hhost. apply host_call_meta in Hhost.
  apply mret_Some in Hg as [_ ->]. exact Hhost.
Qed.

Lemma do_post_meta (H : host) (u : cstr) (n : Z) (w w' : world) (c : Z) :
  emscriptenhttp_do_post H u n w = Some (c, w') ->
  next_loc w' = next_loc w /\ last_error w' = last_error w.
Proof.
  unfold emscriptenhttp_do_post. intros Hg.
  inv_bind_as Hg v w1 Hutf. apply UTF8ToString_Some in Hutf as ->.
  inv_bind_as Hg r w2 Hhost. apply host_call_meta in Hhost.
  apply mret_Some in Hg as [_ ->]. exact Hhost.
Qed.

Lemma stream_read_meta (H : host) (s : N) (n : Z) (w w' : world)
    (r : Z * option Z) :
  emscriptenhttp_stream_read H s n w = Some (r, w') ->
  next_loc w' = next_loc w /\ (fst r = 0 -> last_error w' = last_error w).
Proof.
  intros Hr. unfold emscriptenhttp_stream_read in Hr.
  inv_bind_as Hr st1 w1 Hload1. apply load_stream_Some in Hload1 as [-> _].
  inv_bind_as Hr tt1 w2 Hopen.
  apply (open_meta s st1 (emscriptenhttp_do_get H)) in Hopen as [Hn2 He2];
    [| apply do_get_meta].
  inv_bind_as Hr st2 w3 Hload2. apply load_stream_Some in Hload2 as [-> _].
  inv_bind_as Hr v w4 Hdo. unfold emscriptenhttp_do_read in Hdo.
  inv_bind_as Hdo r1 w5 Hhost. apply host_call_meta in Hhost as [Hn5 He5].
  apply mret_Some in Hdo as [-> ->].
  cbv zeta in Hr. revert Hr.
  destruct (decide (int_of_size_t (size_t_of (wasm_i32 r1)) < 0)); intros Hr.
  - inv_bind_as Hr tt2 w6 Hset. unfold git_error_set in Hset.
    inversion Hset; subst. apply mret_Some in Hr as [-> ->]. simpl.
    split; [congruence | discriminate].
  - apply mret_Some in Hr as [-> ->]. split; [congruence | intros; congruence].
Qed.

Lemma stream_write_meta (H : host) (s : N) (n : Z) (w w' : world) (r : Z) :
  emscriptenhttp_stream_write_single H s n w = Some (r, w') ->
  next_loc w' = next_loc w /\ last_error w' = last_error w.
Proof.
  intros Hr. unfold emscriptenhttp_stream_write_single in Hr.
  inv_bind_as Hr st1 w1 Hload1. apply load_stream_Some in Hload1 as [-> _].
  inv_bind_as Hr tt1 w2 Hopen.
  apply (open_meta s st1 (emscriptenhttp_do_post H)) in Hopen as [Hn2 He2];
    [| apply do_post_meta].
  inv_bind_as Hr st2 w3 Hload2. apply load_stream_Some in Hload2 as [-> _].
  inv_bind_as Hr v w4 Hwr. unfold emscriptenhttpwrite_asm in Hwr.
  inv_bind_as Hwr r1 w5 Hhost. apply host_call_meta in Hhost as [Hn5 He5].
  apply mret_Some in Hwr as [-> ->]. apply mret_Some in Hr as [-> ->].
  split; congruence.
Qed.

(** Any sequence of reads and writes on a stream allocates nothing and
    changes no other block of the heap; the stream itself keeps its
    subtransport and service URL, only its connection handle may change. *)
Theorem run_ops_frame (H : host) (s : N) (ops : list stream_op) :
  forall (w w' : world) (st : emscriptenhttp_stream) (x : unit),
  heap w !! s = Some (BStream st) ->
  run_ops H s ops w = Some (x, w') ->
  next_loc w' = next_loc w /\
  (forall l, l <> s -> heap w' !! l = heap w !! l) /\
  exists c, heap w' !! s = Some (BStream (with_conn st c)).
Proof.
  induction ops as [| op ops IH]; intros w w' st x Hs Hr.
  - apply mret_Some in Hr as [_ ->]. split; [reflexivity |].
    split; [reflexivity |]. exists (connectionNo st). rewrite with_conn_same.
    exact Hs.
  - destruct op as [n | n]; simpl in Hr; inv_bind_as Hr r1 w1 Hstep.
    + destruct (read_step H s n w w1 st r1 Hs Hstep) as (opened & c & Hh & _).
      destruct (stream_read_meta H s n w w1 r1 Hstep) as [Hn _].
      assert (Hs1 : heap w1 !! s = Some (BStream (with_conn st c)))
        by (rewrite Hh; apply lookup_insert_eq).
      destruct (IH w1 w' _ x Hs1 Hr) as (Hn' & Hfr & c' & Hs').
      split; [congruence |]. split.
      * intros l Hl. rewrite Hfr, Hh by exact Hl. apply lookup_insert_ne. congruence.
      * exists c'. exact Hs'.
    + destruct (write_step H s n w w1 st r1 Hs Hstep) as (opened & c & Hh & _).
      destruct (stream_write_meta H s n w w1 r1 Hstep) as [Hn _].
      assert (Hs1 : heap w1 !! s = Some (BStream (with_conn st c)))
        by (rewrite Hh; apply lookup_insert_eq).
      destruct (IH w1 w' _ x Hs1 Hr) as (Hn' & Hfr & c' & Hs').
      split; [congruence |]. split.
      * intros l Hl. rewrite Hfr, Hh by exact Hl. apply lookup_insert_ne. congruence.
      * exists c'. exact Hs'.
Qed.

Lemma run_ops_frame_witness :
  exists x w',
    run_ops aborting_host 0 [OpWrite 4; OpRead 16] fresh_stream_world = Some (x, w') /\
    next_loc w' = next_loc fresh_stream_world /\
    (forall l, l <> 0%N -> heap w' !! l = heap fresh_stream_world !! l) /\
    exists c, heap w' !! 0%N =
      Some (BStream (with_conn {| stream_subtransport := 0; service_url := CHeap 1;
                                  connectionNo := -1 |} c)).
Proof.
  do 2 eexists. split; [vm_compute; reflexivity |].
  exact (run_ops_frame aborting_host 0 [OpWrite 4; OpRead 16] fresh_stream_world _ _ _
           eq_refl (ltac:(vm_compute; reflexivity))).
Defined.

(** [emscriptenhttp_stream_read] sets an error only on its failure path: a
    read that returns 0 leaves the last error as it was. *)
Theorem read_success_keeps_error (H : host) (s : N) (n : Z) (w w' : world)
    (out : option Z) :
  emscriptenhttp_stream_read H s n w = Some ((0, out), w') ->
  last_error w' = last_error w.
Proof.
  intros Hr. apply (stream_read_meta H s n w w' (0, out) Hr). reflexivity.
Qed.

Lemma read_success_keeps_error_witness :
  exists out w',
    emscriptenhttp_stream_read five_byte_host 0 8 fresh_stream_world
      = Some ((0, out), w') /\ last_error w' = None.
Proof.
  do 2 eexists. split; [vm_compute; reflexivity |].
  exact (read_success_keeps_error five_byte_host 0 8 fresh_stream_world _ _
           (ltac:(vm_compute; reflexivity))).
Defined.

(** [emscriptenhttp_stream_write_single] never sets an error, whatever the
    host answers to the POST and to the write. *)
Theorem write_keeps_error (H : host) (s : N) (n : Z) (w w' : world) (r : Z) :
  emscriptenhttp_stream_write_single H s n w = Some (r, w') ->
  last_error w' = last_error w.
Proof. intros Hr. exact (proj2 (stream_write_meta H s n w w' r Hr)). Qed.

Lemma write_keeps_error_witness :
  exists w',
    emscriptenhttp_stream_write_single sentinel_host 0 3
      {| heap := heap fresh_stream_world; next_loc := 2; trace := [];
         last_error := Some (7, "earlier"%string) |} = Some (0, w') /\
    last_error w' = Some (7, "earlier"%string).
Proof.
  eexists. split; [vm_compute; reflexivity |].
  exact (write_keeps_error sentinel_host 0 3
           {| heap := heap fresh_stream_world; next_loc := 2; trace := [];
              last_error := Some (7, "earlier"%string) |} _ 0
           (ltac:(vm_compute; reflexivity))).
Defined.

End EmhttpProofs.
